(** * Server-side bullets of the arena game: a model of [src/server/Bullet.js]

    The development follows the source file: the constructor, the four
    constants, the factory [Bullet.create] and the per-tick method
    [Bullet.prototype.update].  JavaScript numbers are kept behind a small
    interface ([JS.Number]) whose instance is IEEE binary64, what the server
    computes with; statements that need no arithmetic are made for every
    instance.  Objects shared by reference (the players held by the client
    registry, the constructs of the array) live in an explicit store and are
    written through their slot. *)

From Stdlib Require Import ZArith QArith Floats Uint63.
From stdpp Require Import base list strings.

Set Default Proof Using "Type".

(** ** JavaScript numbers *)

Module JS.

(** The arithmetic and the comparisons that the source uses on numbers.
    [lit] reads a decimal literal of the source text. *)
Class Number (num : Type) := {
  lit : Q -> num;
  add : num -> num -> num;
  sub : num -> num -> num;
  mul : num -> num -> num;
  div : num -> num -> num;
  gt : num -> num -> bool;
  le : num -> num -> bool
}.

(** What a failed property access raises. *)
Inductive Error := TypeError.

(** How a call ends: it returns, or it throws and the rest of the body is
    skipped. *)
Inductive Completion := Return | Throw (e : Error).

End JS.

Declare Scope js_scope.
Delimit Scope js_scope with js.
Infix "+" := JS.add : js_scope.
Infix "-" := JS.sub : js_scope.
Infix "*" := JS.mul : js_scope.
Infix "/" := JS.div : js_scope.
Infix ">?" := JS.gt (at level 70) : js_scope.
Infix "<=?" := JS.le (at level 70) : js_scope.

(** The [Math] object: the constant and the two functions the factory calls. *)
Module Math.

Class Lib (num : Type) := {
  PI : num;
  cos : num -> num;
  sin : num -> num
}.

End Math.

(** *** binary64 *)

Definition float_of_Z (z : Z) : float :=
  match z with
  | Z0 => PrimFloat.of_uint63 0
  | Zpos _ => PrimFloat.of_uint63 (Uint63.of_Z z)
  | Zneg p => PrimFloat.opp (PrimFloat.of_uint63 (Uint63.of_Z (Zpos p)))
  end.

(** A decimal literal is the binary64 number nearest to it: the correctly
    rounded quotient of its numerator and denominator. *)
Definition float_lit (q : Q) : float :=
  PrimFloat.div (float_of_Z (Qnum q)) (float_of_Z (Zpos (Qden q))).

#[export] Instance float_Number : JS.Number float := {|
  JS.lit := float_lit;
  JS.add := PrimFloat.add;
  JS.sub := PrimFloat.sub;
  JS.mul := PrimFloat.mul;
  JS.div := PrimFloat.div;
  JS.gt := fun a b => PrimFloat.ltb b a;
  JS.le := PrimFloat.leb
|}.

(** The [Math] object in binary64.  [Math.PI] is the binary64 number nearest
    to pi, as the language fixes it; [Math.cos] and [Math.sin] are whatever
    approximations the engine supplies. *)
Definition float_Math (cos sin : float -> float) : Math.Lib float := {|
  Math.PI := 0x1.921fb54442d18p+1%float;
  Math.cos := cos;
  Math.sin := sin
|}.

(** *** An engine

    [Math.cos] and [Math.sin] are not part of the sources: they belong to
    the JavaScript engine, which may return any approximation.  The engine
    below returns the binary64 number nearest to the cosine and the sine.
    It works on integers that stand for multiples of [2^-bits], with more
    bits the larger the argument: the argument is reduced by a multiple of
    pi/2 (computed by Machin's formula), the power series is summed on the
    remainder, and the sum is rounded to binary64 by the rounding of the
    IEEE specification. *)
Module Engine.

#[local] Open Scope Z_scope.

Section Fixed.
Variable bits : Z.

(** The integer that stands for 1. *)
Definition one : Z := 2 ^ bits.

(** [power / i - power / k2 / (i + 2) + ...], [n] terms: with
    [power = one / k], [k2 = k * k] and [i = 1] this is the arc tangent of
    [1 / k]. *)
Fixpoint arctan_inv (n : nat) (k2 power i : Z) : Z :=
  match n with
  | O => 0
  | S n' => power / i - arctan_inv n' k2 (power / k2) (i + 2)
  end.

(** pi/2, as [8 arctan (1/5) - 2 arctan (1/239)]; a term of the first
    series gains more than 4 bits, a term of the second more than 15. *)
Definition half_pi : Z :=
  8 * arctan_inv (Z.to_nat (bits / 4)) 25 (one / 5) 1
  - 2 * arctan_inv (Z.to_nat (bits / 15)) (239 * 239) (one / 239) 1.

(** [1 - x2 / (a (a + 1)) * (1 - x2 / ((a + 2) (a + 3)) * (1 - ...))], [n]
    levels deep: the cosine of [r] for [x2 = r * r] and [a = 1], the sine
    of [r] over [r] for [a = 2]. *)
Fixpoint series (n : nat) (x2 a : Z) : Z :=
  match n with
  | O => one
  | S n' => one - Z.shiftr (x2 * series n' x2 (a + 2)) bits / (a * (a + 1))
  end.

Definition cos_series (r : Z) : Z := series 40 (Z.shiftr (r * r) bits) 1.

Definition sin_series (r : Z) : Z :=
  Z.shiftr (r * series 40 (Z.shiftr (r * r) bits) 2) bits.

(** The rounding of the integer [v], which stands for [v / 2^bits], to
    binary64. *)
Definition of_fixed (v : Z) : float :=
  SF2Prim (binary_normalize prec emax v (- bits) false).

(** The sine and the cosine of [m * 2^e], in this order. *)
Definition sin_cos_fixed (m : positive) (e : Z) : float * float :=
  let X := Zpos m * 2 ^ (e + bits) in
  let quadrant := (X / half_pi) mod 4 in
  let r := X mod half_pi in
  let s := sin_series r in
  let c := cos_series r in
  let '(s, c) :=
    match quadrant with
    | 0 => (s, c)
    | 1 => (c, - s)
    | 2 => (- s, - c)
    | _ => (- c, s)
    end in
  (of_fixed s, of_fixed c).

End Fixed.

(** The sine and the cosine of [x], in this order.  Below [2^-140] the sine
    of [x] rounds to [x] and the cosine to 1; above, 192 bits are kept
    behind the point of the argument's last bit. *)
Definition sin_cos (x : float) : float * float :=
  match Prim2SF x with
  | S754_zero _ => (x, 1%float)
  | S754_finite negative m e =>
      if e <? - 192 then (x, 1%float)
      else
        let '(s, c) := sin_cos_fixed (192 + Z.max 0 (e + 53)) m e in
        (if negative then PrimFloat.opp s else s, c)
  | _ => (nan, nan)
  end.

Definition cos (x : float) : float := snd (sin_cos x).

Definition sin (x : float) : float := fst (sin_cos x).

End Engine.

#[export] Instance engine_Math : Math.Lib float :=
  float_Math Engine.cos Engine.sin.

(** ** Collaborators of the bullet *)

(** [src/shared/Constants.js] is not part of the sources at hand. *)
Module Constants.

(** Modelled from the spec: [Constants.CONSTRUCT_TYPES].  The type of a
    construct is enumerated (turret, wall, other), with a distinguished
    [WALL]. *)
Inductive CONSTRUCT_TYPES := TURRET | WALL | OTHER.

(** [a == b] on two types of construct. *)
Definition CONSTRUCT_TYPES_eqb (a b : CONSTRUCT_TYPES) : bool :=
  match a, b with
  | TURRET, TURRET | WALL, WALL | OTHER, OTHER => true
  | _, _ => false
  end.

End Constants.

(** The player; its file is not part of the sources at hand. *)
Module Player.

Section WithNumber.
Context {num : Type} {N : JS.Number num}.

(** Modelled from the spec: the [Player] object, by its contract: an
    identity, a position, health and a kill counter. *)
Record t := mk {
  id : string;
  x : num;
  y : num;
  health : num;
  kills : num
}.

(** Modelled from the spec: [Player.prototype.damage], the
    damage-application method; it removes [amount] health points. *)
Definition damage (p : t) (amount : num) : t :=
  mk (id p) (x p) (y p) (health p - amount)%js (kills p).

(** Modelled from the spec: [Player.prototype.isDead], the death predicate
    (health at most 0). *)
Definition isDead (p : t) : bool := (health p <=? JS.lit 0)%js.

(** The write [p.kills++] of line 101 of [Bullet.js]. *)
Definition incr_kills (p : t) : t :=
  mk (id p) (x p) (y p) (health p) (kills p + JS.lit 1)%js.

End WithNumber.

Arguments t num : clear implicits.

End Player.

(** The construct; its file is not part of the sources at hand. *)
Module Construct.

Section WithNumber.
Context {num : Type} {N : JS.Number num}.

(** Modelled from the spec: the [Construct] object, by its contract: the
    identity of its owner, a type, a position and health. *)
Record t := mk {
  owner : string;
  type : Constants.CONSTRUCT_TYPES;
  x : num;
  y : num;
  health : num
}.

(** Modelled from the spec: [Construct.prototype.damage], the
    damage-application method; it removes [amount] health points. *)
Definition damage (c : t) (amount : num) : t :=
  mk (owner c) (type c) (x c) (y c) (health c - amount)%js.

End WithNumber.

Arguments t num : clear implicits.

End Construct.

(** Modelled from the spec: the client registry, a [Hashmap] from connection
    identity to player ([values() -> sequence of Player],
    [get(id) -> Player or absent]).  The entries are kept in iteration order.
    The registry holds its players by reference: the object of an entry is
    named by the slot of the entry, [get] answers with that slot, and a write
    to the object goes through [write]. *)
Module Hashmap.

Abbreviation t V := (list (string * V)) (only parsing).

(** Modelled from the spec: [values()], the players in iteration order. *)
Definition values {V : Type} (h : t V) : list V := h.*2.

(** Modelled from the spec: [get(key)], the slot of the object held under
    [key], or nothing when the key is absent. *)
Definition get {V : Type} (key : string) (h : t V) : option nat :=
  fst <$> list_find (fun e => e.1 = key) h.

(** A write to the object of slot [r]; the key of the entry stays. *)
Definition write {V : Type} (r : nat) (f : V -> V) (h : t V) : t V :=
  alter (fun e => (e.1, f e.2)) r h.

End Hashmap.

(** ** The bullet *)

Module Bullet.

Section WithNumber.
Context {num : Type} {N : JS.Number num}.

(** The fields set by the constructor, followed by the two fields of the
    time bookkeeping that the bullet inherits from [Entity]. *)
Record t := mk {
  x : num;
  y : num;
  vx : num;
  vy : num;
  orientation : num;
  hitboxSize : num;
  source : string;
  damage : num;
  distanceTraveled : num;
  shouldExist : bool;
  lastUpdateTime : num;
  updateTimeDifference : num
}.

(** [function Bullet(x, y, vx, vy, orientation, hitboxSize, source, damage)].
    The inherited bookkeeping starts at 0. *)
Definition new (x y vx vy orientation hitboxSize : num) (source : string)
    (damage : num) : t :=
  mk x y vx vy orientation hitboxSize source damage
     (JS.lit 0) true (JS.lit 0) (JS.lit 0).

Definition VELOCITY_MAGNITUDE : num := JS.lit 0.85.
Definition DEFAULT_DAMAGE : num := JS.lit 1.
Definition MAX_TRAVEL_DISTANCE : num := JS.lit 1000.
Definition DEFAULT_HITBOX_SIZE : num := JS.lit 4.

(** [Bullet.create] *)
Definition create {M : Math.Lib num} (x y direction : num) (source : string)
    : t :=
  let vx := (VELOCITY_MAGNITUDE * Math.cos (direction - Math.PI / JS.lit 2))%js in
  let vy := (VELOCITY_MAGNITUDE * Math.sin (direction - Math.PI / JS.lit 2))%js in
  let hitboxSize := DEFAULT_HITBOX_SIZE in
  let damage := DEFAULT_DAMAGE in
  new x y vx vy direction hitboxSize source damage.

(** [this.distanceTraveled = d] and [this.shouldExist = e]. *)
Definition set_distanceTraveled (d : num) (b : t) : t :=
  mk (x b) (y b) (vx b) (vy b) (orientation b) (hitboxSize b) (source b)
     (damage b) d (shouldExist b) (lastUpdateTime b) (updateTimeDifference b).

Definition set_shouldExist (e : bool) (b : t) : t :=
  mk (x b) (y b) (vx b) (vy b) (orientation b) (hitboxSize b) (source b)
     (damage b) (distanceTraveled b) e (lastUpdateTime b)
     (updateTimeDifference b).

(** Modelled from the spec: [Entity.prototype.update] of
    [src/server/Entity.js], of which the sources at hand have only the call
    [this.parent.update.call(this)].  It refreshes the time elapsed since the
    previous tick and advances the position by velocity times elapsed time.
    The reading of the clock is the argument [now]. *)
Definition Entity_update (now : num) (b : t) : t :=
  let dt := (now - lastUpdateTime b)%js in
  mk (x b + vx b * dt)%js (y b + vy b * dt)%js (vx b) (vy b) (orientation b)
     (hitboxSize b) (source b) (damage b) (distanceTraveled b)
     (shouldExist b) now dt.

(** The hit tests of players and constructs and [Util.inWorld] are not part of
    the sources at hand, and the spec gives their contracts only (a circular
    overlap test against the bullet; a test of the world's bounds): the
    update is stated over any three such tests. *)
Class Collaborators := {
  Util_inWorld : num -> num -> bool;
  Player_isCollidedWith : Player.t num -> t -> bool;
  Construct_isCollidedWith : Construct.t num -> t -> bool
}.

(** What one call of [update] reads and writes: the bullet itself, the
    players of the registry and the constructs of the array. *)
Record World := mkWorld {
  bullet : t;
  clients : Hashmap.t (Player.t num);
  constructs : list (Construct.t num)
}.

Section Update.
Context {C : Collaborators}.

(** Lines 86-87: [this.distanceTraveled += VELOCITY_MAGNITUDE *
    this.updateTimeDifference]. *)
Definition travel (b : t) : t :=
  set_distanceTraveled
    (distanceTraveled b + VELOCITY_MAGNITUDE * updateTimeDifference b)%js b.

(** Lines 88-89: the condition of the first [if]. *)
Definition expired (b : t) : bool :=
  (distanceTraveled b >? MAX_TRAVEL_DISTANCE)%js
  || negb (Util_inWorld (x b) (y b)).

(** Lines 96-97: the condition of the [if] in the loop over the players. *)
Definition hits_player (b : t) (p : Player.t num) : bool :=
  negb (String.eqb (source b) (Player.id p)) && Player_isCollidedWith p b.

(** Lines 109-111: the condition of the [if] in the loop over the
    constructs. *)
Definition hits_construct (b : t) (c : Construct.t num) : bool :=
  (negb (String.eqb (source b) (Construct.owner c))
   || Constants.CONSTRUCT_TYPES_eqb (Construct.type c) Constants.WALL)
  && Construct_isCollidedWith c b.

(** Lines 98-104: the body of the [if] in the loop over the players, for the
    player [p = players[i]].
    The damage is written to the object of slot [i]; a dead target sends the
    kill to the object that the registry holds under [this.source], and
    reading [kills] off an absent one throws before the bullet is flagged. *)
Definition hit_player (b : t) (clients : Hashmap.t (Player.t num)) (i : nat)
    (p : Player.t num) : JS.Completion * t * Hashmap.t (Player.t num) :=
  let clients := Hashmap.write i (fun q => Player.damage q (damage b)) clients in
  if Player.isDead (Player.damage p (damage b)) then
    match Hashmap.get (source b) clients with
    | Some killingPlayer =>
        let clients := Hashmap.write killingPlayer Player.incr_kills clients in
        (JS.Return, set_shouldExist false b, clients)
    | None => (JS.Throw JS.TypeError, b, clients)
    end
  else (JS.Return, set_shouldExist false b, clients).

(** Lines 95-106: the loop over [players = clients.values()], from index [i]
    on; [players] is what is left of the array.  [None]: the loop ran to its
    end.  Otherwise the body returned or threw, with the bullet and the
    registry as they are at that point. *)
Fixpoint players_loop (b : t) (clients : Hashmap.t (Player.t num))
    (players : list (Player.t num)) (i : nat)
    : option (JS.Completion * t * Hashmap.t (Player.t num)) :=
  match players with
  | [] => None
  | p :: players' =>
      if hits_player b p then Some (hit_player b clients i p)
      else players_loop b clients players' (S i)
  end.

(** Lines 108-116: the loop over the constructs, from index [i] on. *)
Fixpoint constructs_loop (b : t) (constructs rest : list (Construct.t num))
    (i : nat) : option (t * list (Construct.t num)) :=
  match rest with
  | [] => None
  | c :: rest' =>
      if hits_construct b c then
        Some (set_shouldExist false b,
              alter (fun c => Construct.damage c (damage b)) i constructs)
      else constructs_loop b constructs rest' (S i)
  end.

(** The bullet as it stands at the first [if]: after the inherited update
    and the addition to [distanceTraveled]. *)
Definition moved (now : num) (b : t) : t := travel (Entity_update now b).

(** [Bullet.prototype.update] *)
Definition update (now : num) (w : World) : JS.Completion * World :=
  let b := moved now (bullet w) in
  if expired b then
    (JS.Return, mkWorld (set_shouldExist false b) (clients w) (constructs w))
  else
    match players_loop b (clients w) (Hashmap.values (clients w)) 0 with
    | Some (completion, b, clients) => (completion, mkWorld b clients (constructs w))
    | None =>
        match constructs_loop b (constructs w) (constructs w) 0 with
        | Some (b, constructs) => (JS.Return, mkWorld b (clients w) constructs)
        | None => (JS.Return, mkWorld b (clients w) (constructs w))
        end
    end.

End Update.

End WithNumber.

Arguments t num : clear implicits.
Arguments Collaborators num : clear implicits.
Arguments World num : clear implicits.

End Bullet.

(** ** A concrete arena

    A binary64 arena to run the update on: a square world and circular hit
    tests around the bullet. *)

Module Arena.

#[local] Open Scope float_scope.

Definition WORLD_MAX : float := 2500.

Definition inWorld (x y : float) : bool :=
  PrimFloat.leb 0 x && PrimFloat.leb x WORLD_MAX
  && PrimFloat.leb 0 y && PrimFloat.leb y WORLD_MAX.

Definition within (r ax ay bx by' : float) : bool :=
  PrimFloat.leb ((ax - bx) * (ax - bx) + (ay - by') * (ay - by'))
                (r * r).

#[export] Instance collaborators : Bullet.Collaborators float := {|
  Bullet.Util_inWorld := inWorld;
  Bullet.Player_isCollidedWith := fun p b =>
    within (Bullet.hitboxSize b) (Player.x p) (Player.y p)
           (Bullet.x b) (Bullet.y b);
  Bullet.Construct_isCollidedWith := fun c b =>
    within (Bullet.hitboxSize b) (Construct.x c) (Construct.y c)
           (Bullet.x b) (Bullet.y b)
|}.

(** A bullet of player [source] at rest at [(x, y)], last updated at time 0. *)
Definition bullet_at (x y traveled : float) (source : string)
    : Bullet.t float :=
  Bullet.mk x y 0 0 0 4 source 1 traveled true 0 0.

(** The cast: the shooter [A], away from the action; a target [B] and two
    constructs of [A], all three at [(100, 100)]. *)
Definition shooter : Player.t float := Player.mk "A" 500 500 10 0.

Definition target (health : float) : Player.t float :=
  Player.mk "B" 100 100 health 0.

Definition wall : Construct.t float :=
  Construct.mk "A" Constants.WALL 100 100 5.

Definition turret : Construct.t float :=
  Construct.mk "A" Constants.TURRET 100 100 5.

(** [A]'s bullet on top of [B] and of [A]'s wall. *)
Definition duel (health : float) : Bullet.World float :=
  Bullet.mkWorld (bullet_at 100 100 0 "A")
                 [("A", shooter); ("B", target health)]%string [wall].

(** The same shot after [A] has left the registry. *)
Definition orphaned : Bullet.World float :=
  Bullet.mkWorld (bullet_at 100 100 0 "A") [("B", target 1)]%string [].

(** [A]'s bullet on top of [A]'s turret and wall, no player in reach. *)
Definition builder : Bullet.World float :=
  Bullet.mkWorld (bullet_at 100 100 0 "A") [("A", shooter)]%string
                 [turret; wall].

(** [A]'s bullet on top of [A], with [B] out of reach. *)
Definition point_blank : Bullet.World float :=
  Bullet.mkWorld (bullet_at 500 500 0 "A")
                 [("A", shooter); ("B", target 1)]%string [].

(** [A]'s bullet with nothing in reach, having traveled [traveled]. *)
Definition stray (traveled : float) : Bullet.World float :=
  Bullet.mkWorld (bullet_at 300 300 traveled "A") [("A", shooter)]%string [].

(** [A]'s bullet past the left edge of the world, on top of a player and of a
    wall of [B]. *)
Definition outside : Bullet.World float :=
  Bullet.mkWorld (bullet_at (-1) 100 0 "A")
                 [("A", shooter); ("B", Player.mk "B" (-1) 100 1 0)]%string
                 [Construct.mk "B" Constants.WALL (-1) 100 5].

(** A bullet that is already flagged. *)
Definition spent : Bullet.World float :=
  Bullet.mkWorld (Bullet.set_shouldExist false (bullet_at 300 300 0 "A"))
                 [("A", shooter)]%string [].

(** Collaborators whose player test also answers yes for every player that
    carries the identity of the bullet's source. *)
Definition self_colliding : Bullet.Collaborators float := {|
  Bullet.Util_inWorld := inWorld;
  Bullet.Player_isCollidedWith := fun p b =>
    String.eqb (Player.id p) (Bullet.source b)
    || within (Bullet.hitboxSize b) (Player.x p) (Player.y p)
              (Bullet.x b) (Bullet.y b);
  Bullet.Construct_isCollidedWith := fun c b =>
    within (Bullet.hitboxSize b) (Construct.x c) (Construct.y c)
           (Bullet.x b) (Bullet.y b)
|}.

(** A bullet of [A] that is already flagged, on top of [B]. *)
Definition spent_on_target : Bullet.World float :=
  Bullet.mkWorld (Bullet.set_shouldExist false (bullet_at 100 100 0 "A"))
                 [("A", shooter); ("B", target 5)]%string [].

(** [A]'s bullet far from [A] and from [A]'s wall. *)
Definition distant : Bullet.World float :=
  Bullet.mkWorld (bullet_at 300 300 0 "B") [("A", shooter)]%string [wall].

End Arena.

(** ** Vocabulary of the statements *)

(** The health and the kill counter of every player of the registry, slot by
    slot. *)
Definition healths {num : Type} (h : Hashmap.t (Player.t num)) : list num :=
  Player.health <$> Hashmap.values h.

Definition kill_counts {num : Type} (h : Hashmap.t (Player.t num)) : list num :=
  Player.kills <$> Hashmap.values h.

(** The outcome of an update: how it ended, and the world it left. *)
Definition completion {num : Type} (r : JS.Completion * Bullet.World num)
    : JS.Completion := r.1.

Definition world {num : Type} (r : JS.Completion * Bullet.World num)
    : Bullet.World num := r.2.

(** Successive updates of the same bullet, at the clock readings [nows]:
    each call runs on the world that the previous one left. *)
Definition updates {num : Type} {N : JS.Number num}
    {C : Bullet.Collaborators num} (nows : list num) (w : Bullet.World num)
    : Bullet.World num :=
  foldl (fun w now => world (Bullet.update now w)) w nows.

(** What identifies and places a player, and a construct: all of the entry
    but the health and the kill counter. *)
Definition player_shape {num : Type} (e : string * Player.t num)
    : string * string * num * num :=
  (e.1, Player.id e.2, Player.x e.2, Player.y e.2).

Definition construct_shape {num : Type} (c : Construct.t num)
    : string * Constants.CONSTRUCT_TYPES * num * num :=
  (Construct.owner c, Construct.type c, Construct.x c, Construct.y c).


(** * Properties *)

Import Bullet.

(** ** The registry *)

Section Registry.
Context {V : Type}.
Implicit Types (h : Hashmap.t V) (f : V -> V).

Lemma get_write key r f h :
  Hashmap.get key (Hashmap.write r f h) = Hashmap.get key h.
Proof.
  unfold Hashmap.get, Hashmap.write.
  revert r. induction h as [|[k v] h IH]; intros r; [done|].
  destruct r as [|r]; cbn.
  - destruct (decide (k = key)); done.
  - destruct (decide (k = key)); [done|].
    specialize (IH r). revert IH.
    destruct (list_find _ (alter _ r h)) as [[i1 e1]|];
      destruct (list_find _ h) as [[i2 e2]|]; cbn; congruence.
Qed.

Lemma values_write r f h :
  Hashmap.values (Hashmap.write r f h) = alter f r (Hashmap.values h).
Proof.
  unfold Hashmap.values, Hashmap.write.
  apply list_fmap_alter, Forall_forall. done.
Qed.

Lemma get_lt key r h : Hashmap.get key h = Some r -> r < length h.
Proof.
  unfold Hashmap.get. intros Hg.
  destruct (list_find _ h) as [[i e]|] eqn:E; [|done].
  cbn in Hg. injection Hg as <-.
  apply list_find_Some in E as (Hi & _). by eapply lookup_lt_Some.
Qed.

End Registry.

(** ** The two loops find the first match *)

Section Loops.
Context {num : Type} {N : JS.Number num} {C : Collaborators num}.
Implicit Types (b : Bullet.t num) (w : World num) (now : num).

Lemma players_loop_find b cl players i :
  players_loop b cl players i =
  match list_find (fun p => hits_player b p = true) players with
  | Some (k, p) => Some (hit_player b cl (i + k) p)
  | None => None
  end.
Proof.
  revert i. induction players as [|p players IH]; intros i; [done|].
  cbn. destruct (hits_player b p) eqn:E.
  - rewrite decide_True by done. by rewrite Nat.add_0_r.
  - rewrite decide_False by congruence. rewrite IH.
    destruct (list_find _ players) as [[k q]|]; cbn; [|done].
    by rewrite Nat.add_succ_r.
Qed.

Lemma constructs_loop_find b cs rest i :
  constructs_loop b cs rest i =
  match list_find (fun c => hits_construct b c = true) rest with
  | Some (k, _) =>
      Some (set_shouldExist false b,
            alter (fun c => Construct.damage c (damage b)) (i + k) cs)
  | None => None
  end.
Proof.
  revert i. induction rest as [|c rest IH]; intros i; [done|].
  cbn. destruct (hits_construct b c) eqn:E.
  - rewrite decide_True by done. by rewrite Nat.add_0_r.
  - rewrite decide_False by congruence. rewrite IH.
    destruct (list_find _ rest) as [[k q]|]; cbn; [|done].
    by rewrite Nat.add_succ_r.
Qed.

(** The four ways through [update]. *)

Lemma update_expired now w :
  expired (moved now (bullet w)) = true ->
  update now w =
  (JS.Return,
   mkWorld (set_shouldExist false (moved now (bullet w)))
           (clients w) (constructs w)).
Proof. intros E. unfold update. by rewrite E. Qed.

Lemma update_player now w i p :
  expired (moved now (bullet w)) = false ->
  list_find (fun p => hits_player (moved now (bullet w)) p = true)
            (Hashmap.values (clients w)) = Some (i, p) ->
  update now w =
  let '(c, b, cl) := hit_player (moved now (bullet w)) (clients w) i p in
  (c, mkWorld b cl (constructs w)).
Proof.
  intros E F. unfold update. rewrite E, players_loop_find, F. done.
Qed.

Lemma update_construct now w j c :
  expired (moved now (bullet w)) = false ->
  list_find (fun p => hits_player (moved now (bullet w)) p = true)
            (Hashmap.values (clients w)) = None ->
  list_find (fun c => hits_construct (moved now (bullet w)) c = true)
            (constructs w) = Some (j, c) ->
  update now w =
  (JS.Return,
   mkWorld (set_shouldExist false (moved now (bullet w))) (clients w)
           (alter (fun c => Construct.damage c (damage (moved now (bullet w))))
                  j (constructs w))).
Proof.
  intros E F G. unfold update.
  rewrite E, players_loop_find, F, constructs_loop_find, G. done.
Qed.

Lemma update_miss now w :
  expired (moved now (bullet w)) = false ->
  list_find (fun p => hits_player (moved now (bullet w)) p = true)
            (Hashmap.values (clients w)) = None ->
  list_find (fun c => hits_construct (moved now (bullet w)) c = true)
            (constructs w) = None ->
  update now w =
  (JS.Return, mkWorld (moved now (bullet w)) (clients w) (constructs w)).
Proof.
  intros E F G. unfold update.
  rewrite E, players_loop_find, F, constructs_loop_find, G. done.
Qed.

(** Whatever the way, the bullet that comes out is the moved bullet, flagged
    or not. *)
Lemma update_bullet now w :
  bullet (world (update now w)) = moved now (bullet w)
  \/ bullet (world (update now w)) = set_shouldExist false (moved now (bullet w)).
Proof.
  destruct (expired (moved now (bullet w))) eqn:E.
  { rewrite update_expired by done. by right. }
  destruct (list_find (fun p => hits_player (moved now (bullet w)) p = true)
              (Hashmap.values (clients w))) as [[i p]|] eqn:F.
  { rewrite (update_player _ _ i p) by done. unfold hit_player.
    destruct (Player.isDead _); [|by right].
    destruct (Hashmap.get _ _); [by right|by left]. }
  destruct (list_find (fun c => hits_construct (moved now (bullet w)) c = true)
              (constructs w)) as [[j c]|] eqn:G.
  - rewrite (update_construct _ _ j c) by done. by right.
  - rewrite update_miss by done. by left.
Qed.

End Loops.

(** ** What an update leaves alone *)

Section Frame.
Context {num : Type} {N : JS.Number num} {C : Collaborators num}.
Implicit Types (b : Bullet.t num) (w : World num) (now : num).

(** C6.  If, at the first test of an update, the bullet's [distanceTraveled]
    exceeds [MAX_TRAVEL_DISTANCE] or its position is outside the world, the
    update returns with [shouldExist] false and without any collision effect:
    the registry (health and kill counter of every player) and the
    constructs are what they were. *)
Theorem update_expired_no_collision now w :
  (distanceTraveled (moved now (bullet w)) >? MAX_TRAVEL_DISTANCE)%js = true
  \/ Util_inWorld (x (moved now (bullet w))) (y (moved now (bullet w))) = false ->
  completion (update now w) = JS.Return
  /\ shouldExist (bullet (world (update now w))) = false
  /\ clients (world (update now w)) = clients w
  /\ constructs (world (update now w)) = constructs w.
Proof.
  intros H. rewrite update_expired; [done|].
  unfold expired. destruct H as [-> | ->]; [done|].
  by rewrite orb_true_r.
Qed.

(** C9.  [shouldExist] is true in a bullet that the constructor or the
    factory returns, and an update never turns it from false to true: a
    bullet that enters an update with [shouldExist] false leaves it with
    [shouldExist] false. *)
Theorem shouldExist_one_way :
  (forall x y vx vy orientation hitboxSize source damage,
      shouldExist (new x y vx vy orientation hitboxSize source damage) = true)
  /\ (forall (M : Math.Lib num) x y direction source,
      shouldExist (create x y direction source) = true)
  /\ (forall now w,
      shouldExist (bullet w) = false ->
      shouldExist (bullet (world (update now w))) = false).
Proof.
  split; [done|]. split; [done|].
  intros now w H. by destruct (update_bullet now w) as [-> | ->].
Qed.

(** C10.  An update leaves [vx], [vy], [orientation], [hitboxSize], [source]
    and [damage] of the bullet as they were. *)
Theorem update_keeps_creation_fields now w :
  vx (bullet (world (update now w))) = vx (bullet w)
  /\ vy (bullet (world (update now w))) = vy (bullet w)
  /\ orientation (bullet (world (update now w))) = orientation (bullet w)
  /\ hitboxSize (bullet (world (update now w))) = hitboxSize (bullet w)
  /\ source (bullet (world (update now w))) = source (bullet w)
  /\ damage (bullet (world (update now w))) = damage (bullet w).
Proof. by destruct (update_bullet now w) as [-> | ->]. Qed.

End Frame.

(** ** Health and kill counters under the two writes of [update] *)

Section Counters.
Context {num : Type} {N : JS.Number num}.
Implicit Types (h : Hashmap.t (Player.t num)) (d : num).

Lemma healths_damage r d h :
  healths (Hashmap.write r (fun q => Player.damage q d) h)
  = alter (fun v => (v - d)%js) r (healths h).
Proof.
  unfold healths. rewrite values_write.
  apply list_fmap_alter, Forall_forall. done.
Qed.

Lemma healths_incr_kills r h :
  healths (Hashmap.write r Player.incr_kills h) = healths h.
Proof.
  unfold healths. rewrite values_write.
  rewrite (list_fmap_alter _ _ (fun v => v)) by (apply Forall_forall; done).
  by apply list_alter_id.
Qed.

Lemma kill_counts_damage r d h :
  kill_counts (Hashmap.write r (fun q => Player.damage q d) h) = kill_counts h.
Proof.
  unfold kill_counts. rewrite values_write.
  rewrite (list_fmap_alter _ _ (fun v => v)) by (apply Forall_forall; done).
  by apply list_alter_id.
Qed.

Lemma kill_counts_incr_kills r h :
  kill_counts (Hashmap.write r Player.incr_kills h)
  = alter (fun k => (k + JS.lit 1)%js) r (kill_counts h).
Proof.
  unfold kill_counts. rewrite values_write.
  apply list_fmap_alter, Forall_forall. done.
Qed.

End Counters.

(** ** Collisions *)

Section Collisions.
Context {num : Type} {N : JS.Number num} {C : Collaborators num}.
Implicit Types (b : Bullet.t num) (w : World num) (now : num).

(** The registry after a hit on the player of slot [i]: the health of that
    slot went down by the damage of the bullet, and no other health moved. *)
Lemma hit_player_healths b cl i p :
  healths (hit_player b cl i p).2
  = alter (fun v => (v - damage b)%js) i (healths cl).
Proof.
  unfold hit_player. destruct (Player.isDead _).
  - destruct (Hashmap.get _ _); cbn [snd].
    + by rewrite healths_incr_kills, healths_damage.
    + by rewrite healths_damage.
  - cbn [snd]. by rewrite healths_damage.
Qed.

(** C3.  An update damages at most one target.  The players are scanned
    first: when some player is eligible (another identity than the source,
    and collided), the first such player in registry order loses the
    bullet's damage, no other player's health moves and the constructs are
    untouched, whether or not a construct overlaps the bullet as well.  Only
    when no player is eligible are the constructs scanned, and then the
    first eligible construct in array order is the one damaged, with the
    registry untouched.  A bullet that is expired, or that finds no target,
    damages nothing. *)
Theorem first_match_wins now w :
  (expired (moved now (bullet w)) = true ->
     clients (world (update now w)) = clients w
     /\ constructs (world (update now w)) = constructs w)
  /\ (expired (moved now (bullet w)) = false ->
      match list_find (fun p => hits_player (moved now (bullet w)) p = true)
                      (Hashmap.values (clients w)) with
      | Some (i, _) =>
          healths (clients (world (update now w)))
          = alter (fun v => (v - damage (bullet w))%js) i (healths (clients w))
          /\ constructs (world (update now w)) = constructs w
      | None =>
          clients (world (update now w)) = clients w
          /\ match list_find
                     (fun c => hits_construct (moved now (bullet w)) c = true)
                     (constructs w) with
             | Some (j, _) =>
                 constructs (world (update now w))
                 = alter (fun c => Construct.damage c (damage (bullet w))) j
                         (constructs w)
             | None => constructs (world (update now w)) = constructs w
             end
      end).
Proof.
  split; intros E.
  { by rewrite update_expired. }
  destruct (list_find (fun p => hits_player _ p = true) _) as [[i p]|] eqn:F.
  { rewrite (update_player _ _ i p) by done.
    pose proof (hit_player_healths (moved now (bullet w)) (clients w) i p) as H.
    destruct (hit_player _ _ i p) as [[c b] cl]. done. }
  destruct (list_find (fun c => hits_construct _ c = true) _) as [[j c]|] eqn:G.
  - by rewrite (update_construct _ _ j c).
  - by rewrite update_miss.
Qed.

End Collisions.

(** ** Constructs *)

Lemma CONSTRUCT_TYPES_eqb_eq a b :
  Constants.CONSTRUCT_TYPES_eqb a b = true <-> a = b.
Proof. destruct a, b; cbn; split; congruence. Qed.

Section Constructs.
Context {num : Type} {N : JS.Number num} {C : Collaborators num}.
Implicit Types (b : Bullet.t num) (w : World num) (now : num).

(** The condition of the second loop, in words. *)
Lemma hits_construct_iff b c :
  hits_construct b c = true <->
  Construct_isCollidedWith c b = true
  /\ (source b <> Construct.owner c \/ Construct.type c = Constants.WALL).
Proof.
  unfold hits_construct.
  rewrite andb_true_iff, orb_true_iff, negb_true_iff, CONSTRUCT_TYPES_eqb_eq.
  rewrite <- not_true_iff_false, String.eqb_eq. tauto.
Qed.

(** C4.  A construct is eligible when it collides with the bullet and its
    owner is not the source or its type is [WALL].  In an update that is not
    expired and hits no player: if some construct is eligible, the first one
    in array order is damaged and the bullet is flagged; if none is, no
    construct is damaged and the bullet is not flagged.  So a wall of the
    shooter that collides (and has no eligible construct before it) takes
    the damage, and in no update at all is a construct of the shooter that
    is not a wall damaged. *)
Theorem construct_hit_rule now w :
  (forall j c,
      constructs w !! j = Some c ->
      Construct.owner c = source (bullet w) ->
      Construct.type c <> Constants.WALL ->
      constructs (world (update now w)) !! j = Some c)
  /\ (expired (moved now (bullet w)) = false ->
      list_find (fun p => hits_player (moved now (bullet w)) p = true)
                (Hashmap.values (clients w)) = None ->
      (forall c, hits_construct (moved now (bullet w)) c = true <->
         Construct_isCollidedWith c (moved now (bullet w)) = true
         /\ (source (bullet w) <> Construct.owner c
             \/ Construct.type c = Constants.WALL))
      /\ (forall j c,
           list_find (fun c => hits_construct (moved now (bullet w)) c = true)
                     (constructs w) = Some (j, c) ->
           constructs (world (update now w))
           = alter (fun c => Construct.damage c (damage (bullet w))) j
                   (constructs w)
           /\ shouldExist (bullet (world (update now w))) = false)
      /\ (list_find (fun c => hits_construct (moved now (bullet w)) c = true)
                    (constructs w) = None ->
           constructs (world (update now w)) = constructs w
           /\ bullet (world (update now w)) = moved now (bullet w))
      /\ (forall j c,
           constructs w !! j = Some c ->
           Construct.type c = Constants.WALL ->
           Construct_isCollidedWith c (moved now (bullet w)) = true ->
           (forall k c', constructs w !! k = Some c' -> k < j ->
                         hits_construct (moved now (bullet w)) c' = false) ->
           constructs (world (update now w)) !! j
           = Some (Construct.damage c (damage (bullet w))))).
Proof.
  split.
  - intros j c Hj Hown Hty.
    assert (hits_construct (moved now (bullet w)) c = false) as Hc.
    { apply not_true_iff_false. rewrite hits_construct_iff.
      cbn. intros [_ [? | ?]]; congruence. }
    destruct (expired (moved now (bullet w))) eqn:E.
    { by rewrite update_expired. }
    destruct (list_find (fun p => hits_player (moved now (bullet w)) p = true)
                (Hashmap.values (clients w))) as [[i p]|] eqn:F.
    { rewrite (update_player _ _ i p) by done.
      by destruct (hit_player _ _ i p) as [[? ?] ?]. }
    destruct (list_find (fun c => hits_construct (moved now (bullet w)) c = true)
                (constructs w)) as [[j' c']|] eqn:G.
    + rewrite (update_construct _ _ j' c') by done.
      apply list_find_Some in G as (Hj' & Hc' & _).
      unfold world; cbn [snd constructs].
      rewrite list_lookup_alter_ne; [done|].
      intros ->. congruence.
    + by rewrite update_miss.
  - intros E F. split; [intros c; apply (hits_construct_iff (moved now (bullet w)) c)|].
    split; [|split].
    + intros j c G. by rewrite (update_construct _ _ j c).
    + intros G. by rewrite update_miss.
    + intros j c Hj Hty Hcol Hbefore.
      assert (list_find (fun c => hits_construct (moved now (bullet w)) c = true)
                (constructs w) = Some (j, c)) as G.
      { apply list_find_Some. split; [done|]. split.
        - apply (hits_construct_iff (moved now (bullet w)) c). auto.
        - intros k c' Hk Hlt. rewrite (Hbefore k c' Hk Hlt). done. }
      rewrite (update_construct _ _ j c) by done. cbn.
      rewrite list_lookup_alter_eq, Hj. done.
Qed.

End Constructs.

(** ** Kill credit *)

Section Kills.
Context {num : Type} {N : JS.Number num} {C : Collaborators num}.
Implicit Types (b : Bullet.t num) (w : World num) (now : num).

(** C7.  In an update that damages the player [p] of slot [i]: if [p] is
    dead after the damage and the registry holds a player under the source
    of the bullet, the kill counter of that player goes up by 1 and no other
    kill counter moves; if [p] is not dead after the damage, no kill counter
    of the registry moves. *)
Theorem kill_credit now w i p :
  expired (moved now (bullet w)) = false ->
  list_find (fun p => hits_player (moved now (bullet w)) p = true)
            (Hashmap.values (clients w)) = Some (i, p) ->
  (Player.isDead (Player.damage p (damage (bullet w))) = true ->
   forall shooter,
     Hashmap.get (source (bullet w)) (clients w) = Some shooter ->
     completion (update now w) = JS.Return
     /\ shooter < length (kill_counts (clients w))
     /\ kill_counts (clients (world (update now w)))
        = alter (fun k => (k + JS.lit 1)%js) shooter (kill_counts (clients w)))
  /\ (Player.isDead (Player.damage p (damage (bullet w))) = false ->
      completion (update now w) = JS.Return
      /\ kill_counts (clients (world (update now w)))
         = kill_counts (clients w)).
Proof.
  intros E F. rewrite (update_player _ _ i p) by done.
  unfold hit_player. cbn [moved travel Entity_update set_distanceTraveled
                          damage source].
  split.
  - intros -> shooter G. rewrite get_write, G.
    unfold completion, world. cbn [fst snd clients].
    split; [done|]. split.
    + unfold kill_counts, Hashmap.values. rewrite !length_fmap.
      by eapply get_lt.
    + by rewrite kill_counts_incr_kills, kill_counts_damage.
  - intros ->. unfold completion, world. cbn [fst snd clients].
    split; [done|]. by rewrite kill_counts_damage.
Qed.

(** When the target is dead after the damage and the registry holds nobody
    under the source of the bullet, reading [kills] off the absent player
    throws: the damage has been written, the bullet has not been flagged. *)
Lemma update_absent_shooter now w i p :
  expired (moved now (bullet w)) = false ->
  list_find (fun p => hits_player (moved now (bullet w)) p = true)
            (Hashmap.values (clients w)) = Some (i, p) ->
  Player.isDead (Player.damage p (damage (bullet w))) = true ->
  Hashmap.get (source (bullet w)) (clients w) = None ->
  update now w =
  (JS.Throw JS.TypeError,
   mkWorld (moved now (bullet w))
           (Hashmap.write i (fun q => Player.damage q (damage (bullet w)))
                          (clients w))
           (constructs w)).
Proof.
  intros E F D G. rewrite (update_player _ _ i p) by done.
  unfold hit_player. cbn [moved travel Entity_update set_distanceTraveled
                          damage source].
  by rewrite D, get_write, G.
Qed.

End Kills.

(** ** The shooter *)

Section Shooter.
Context {num : Type} {N : JS.Number num}.
Implicit Types (b : Bullet.t num) (w : World num) (now : num).

Lemma lookup_write {V : Type} (r i : nat) (f : V -> V) (h : Hashmap.t V) key v :
  h !! i = Some (key, v) ->
  Hashmap.write r f h !! i = Some (key, if decide (r = i) then f v else v).
Proof.
  intros H. unfold Hashmap.write. destruct (decide (r = i)) as [-> | Hne].
  - by rewrite list_lookup_alter_eq, H.
  - by rewrite list_lookup_alter_ne.
Qed.

(** The player test is not consulted for a player whose [id] is the source
    of the bullet: two sets of collaborators that differ on such players
    only run the same loops. *)
Lemma hits_player_ext (C C' : Collaborators num) b p :
  (forall p b, Player.id p <> source b ->
     Player_isCollidedWith (Collaborators := C') p b
     = Player_isCollidedWith (Collaborators := C) p b) ->
  hits_player (C := C') b p = hits_player (C := C) b p.
Proof.
  intros H. unfold hits_player.
  destruct (String.eqb (source b) (Player.id p)) eqn:E; [done|].
  cbn. apply H. apply String.eqb_neq in E. congruence.
Qed.

Lemma players_loop_ext (C C' : Collaborators num) b cl players i :
  (forall p b, Player.id p <> source b ->
     Player_isCollidedWith (Collaborators := C') p b
     = Player_isCollidedWith (Collaborators := C) p b) ->
  players_loop (C := C') b cl players i = players_loop (C := C) b cl players i.
Proof.
  intros H. revert i. induction players as [|p players IH]; intros i; [done|].
  cbn. rewrite (hits_player_ext C C') by done.
  destruct (hits_player b p); [done|]. apply IH.
Qed.

Lemma constructs_loop_ext (C C' : Collaborators num) b cs rest i :
  (forall c b, Construct_isCollidedWith (Collaborators := C') c b
               = Construct_isCollidedWith (Collaborators := C) c b) ->
  constructs_loop (C := C') b cs rest i = constructs_loop (C := C) b cs rest i.
Proof.
  intros H. revert i. induction rest as [|c rest IH]; intros i; [done|].
  cbn. unfold hits_construct. rewrite H.
  destruct (_ && _); [done|]. apply IH.
Qed.

Context {C : Collaborators num}.

(** C8.  A player of the registry whose [id] is the source of the bullet is
    not a hit candidate of that bullet's update: the update leaves the
    player in its slot with the health it had, and the outcome of the update
    does not depend on what the hit test answers for such a player. *)
Theorem no_self_hit now w :
  (forall i key p,
      clients w !! i = Some (key, p) ->
      Player.id p = source (bullet w) ->
      exists p',
        clients (world (update now w)) !! i = Some (key, p')
        /\ Player.health p' = Player.health p
        /\ Player.id p' = Player.id p)
  /\ (forall C' : Collaborators num,
      (forall x y, Util_inWorld (Collaborators := C') x y
                   = Util_inWorld (Collaborators := C) x y) ->
      (forall c b, Construct_isCollidedWith (Collaborators := C') c b
                   = Construct_isCollidedWith (Collaborators := C) c b) ->
      (forall p b, Player.id p <> source b ->
                   Player_isCollidedWith (Collaborators := C') p b
                   = Player_isCollidedWith (Collaborators := C) p b) ->
      update (C := C') now w = update (C := C) now w).
Proof.
  split.
  - intros i key p Hi Hid.
    destruct (expired (moved now (bullet w))) eqn:E.
    { rewrite update_expired by done. by exists p. }
    destruct (list_find (fun p => hits_player (moved now (bullet w)) p = true)
                (Hashmap.values (clients w))) as [[k q]|] eqn:F.
    + rewrite (update_player _ _ k q) by done.
      apply list_find_Some in F as (Hk & Hq & _).
      assert (k <> i) as Hki.
      { intros ->. unfold Hashmap.values in Hk.
        rewrite list_lookup_fmap, Hi in Hk. injection Hk as <-.
        unfold hits_player in Hq. cbn in Hq. rewrite <- Hid in Hq.
        by rewrite String.eqb_refl in Hq. }
      pose proof (lookup_write k i (fun q => Player.damage q
                    (damage (moved now (bullet w)))) _ _ _ Hi) as Hd.
      rewrite decide_False in Hd by done.
      unfold hit_player. destruct (Player.isDead _).
      * destruct (Hashmap.get _ _) as [j|]; unfold world; cbn [snd clients].
        -- rewrite (lookup_write j i _ _ _ _ Hd).
           destruct (decide (j = i)); eauto.
        -- eauto.
      * unfold world; cbn [snd clients]. eauto.
    + destruct (list_find (fun c => hits_construct (moved now (bullet w)) c = true)
                  (constructs w)) as [[j c]|] eqn:G.
      * rewrite (update_construct _ _ j c) by done. by exists p.
      * rewrite update_miss by done. by exists p.
  - intros C' Hw Hc Hp. unfold update, expired. rewrite Hw.
    destruct (_ || _); [done|].
    rewrite (players_loop_ext C C') by done.
    destruct (players_loop _ _ _ _) as [[[c b] cl]|]; [done|].
    by rewrite (constructs_loop_ext C C').
Qed.

End Shooter.

(** ** The travel limit, in binary64 *)

Section TravelLimit.
Context {C : Collaborators float}.
Implicit Types (w : World float) (now : float).

Lemma MAX_TRAVEL_DISTANCE_float : MAX_TRAVEL_DISTANCE (num := float) = 1000%float.
Proof. reflexivity. Qed.

Lemma VELOCITY_MAGNITUDE_float :
  VELOCITY_MAGNITUDE (num := float) = 0x1.b333333333333p-1%float.
Proof. reflexivity. Qed.

(** C2, as the code has it.  The test of the distance is strict.  A bullet
    whose [distanceTraveled] is greater than [MAX_TRAVEL_DISTANCE] (1000) at
    the test is flagged on that tick.  At exactly 1000, as at 999, the test
    of the distance does not fire: the first [if] is decided by the bounds of
    the world alone, and a bullet that is in the world and hits nothing
    leaves the update as the moved bullet, [shouldExist] as it came in. *)
Theorem travel_limit_is_strict now w :
  (PrimFloat.ltb 1000 (distanceTraveled (moved now (bullet w))) = true ->
   completion (update now w) = JS.Return
   /\ shouldExist (bullet (world (update now w))) = false)
  /\ (distanceTraveled (moved now (bullet w)) = 1000%float
      \/ distanceTraveled (moved now (bullet w)) = 999%float ->
      expired (moved now (bullet w))
      = negb (Util_inWorld (x (moved now (bullet w))) (y (moved now (bullet w))))
      /\ (Util_inWorld (x (moved now (bullet w))) (y (moved now (bullet w))) = true ->
          list_find (fun p => hits_player (moved now (bullet w)) p = true)
                    (Hashmap.values (clients w)) = None ->
          list_find (fun c => hits_construct (moved now (bullet w)) c = true)
                    (constructs w) = None ->
          completion (update now w) = JS.Return
          /\ shouldExist (bullet (world (update now w))) = shouldExist (bullet w))).
Proof.
  split.
  - intros H. rewrite update_expired; [done|].
    unfold expired. rewrite MAX_TRAVEL_DISTANCE_float.
    change (JS.gt ?a ?b) with (PrimFloat.ltb b a). by rewrite H.
  - intros H.
    assert (expired (moved now (bullet w))
            = negb (Util_inWorld (x (moved now (bullet w)))
                                 (y (moved now (bullet w))))) as E.
    { unfold expired. by destruct H as [-> | ->]. }
    split; [done|]. intros Hin F G.
    rewrite update_miss; [done| |done|done].
    by rewrite E, Hin.
Qed.

End TravelLimit.

(** ** Runs in the arena *)

Section Runs.
Import Arena.
#[local] Open Scope float_scope.

(** The refutation of C2 as the spec words it: [A]'s bullet has traveled 983
    and the tick adds [0.85 * 20 = 17]; at the test [distanceTraveled] is
    exactly [MAX_TRAVEL_DISTANCE], the bullet is in the world, and it leaves
    the update with [shouldExist] still true. *)
Lemma at_limit_not_flagged :
  distanceTraveled (moved 20 (bullet (stray 983))) = MAX_TRAVEL_DISTANCE
  /\ shouldExist (bullet (world (update 20 (stray 983)))) <> false.
Proof. split; [reflexivity|]. vm_compute. discriminate. Qed.

Lemma travel_limit_is_strict_runs :
  (completion (update 20 (stray 984)) = JS.Return
   /\ shouldExist (bullet (world (update 20 (stray 984)))) = false)
  /\ (completion (update 20 (stray 983)) = JS.Return
      /\ shouldExist (bullet (world (update 20 (stray 983)))) = true)
  /\ (completion (update 20 (stray 982)) = JS.Return
      /\ shouldExist (bullet (world (update 20 (stray 982)))) = true).
Proof.
  split; [|split].
  - exact (proj1 (travel_limit_is_strict 20 (stray 984)) eq_refl).
  - exact (proj2 (proj2 (travel_limit_is_strict 20 (stray 983))
                        (or_introl eq_refl)) eq_refl eq_refl eq_refl).
  - exact (proj2 (proj2 (travel_limit_is_strict 20 (stray 982))
                        (or_intror eq_refl)) eq_refl eq_refl eq_refl).
Defined.

(** C1 at the input that breaks it.  [A] has left the registry and [A]'s
    bullet overlaps [B], who has 1 health point: the update takes the point
    from [B] and then throws a [TypeError]; the bullet is not flagged. *)
Theorem absent_shooter_throws :
  Hashmap.get (source (bullet orphaned)) (clients orphaned) = None
  /\ healths (clients orphaned) = [1]
  /\ completion (update 16 orphaned) = JS.Throw JS.TypeError
  /\ healths (clients (world (update 16 orphaned))) = [0]
  /\ kill_counts (clients (world (update 16 orphaned))) = [0]
  /\ shouldExist (bullet (world (update 16 orphaned))) = true.
Proof.
  rewrite (update_absent_shooter 16 orphaned 0 (target 1)) by reflexivity.
  repeat split.
Qed.

Lemma update_expired_no_collision_runs :
  completion (update 16 outside) = JS.Return
  /\ shouldExist (bullet (world (update 16 outside))) = false
  /\ clients (world (update 16 outside)) = clients outside
  /\ constructs (world (update 16 outside)) = constructs outside.
Proof. exact (update_expired_no_collision 16 outside (or_intror eq_refl)). Defined.

Lemma shouldExist_one_way_runs :
  shouldExist (bullet (world (update 16 spent))) = false.
Proof.
  exact (proj2 (proj2 (shouldExist_one_way (C := collaborators)))
               16 spent eq_refl).
Defined.

Lemma first_match_wins_runs :
  (clients (world (update 16 outside)) = clients outside
   /\ constructs (world (update 16 outside)) = constructs outside)
  /\ (healths (clients (duel 1)) = [10; 1]
      /\ healths (clients (world (update 16 (duel 1)))) = [10; 0]
      /\ constructs (world (update 16 (duel 1))) = [wall]).
Proof.
  split.
  - exact (proj1 (first_match_wins 16 outside) eq_refl).
  - split; [reflexivity|].
    exact (proj2 (first_match_wins 16 (duel 1)) eq_refl).
Defined.

Lemma construct_hit_rule_runs :
  constructs (world (update 16 builder)) !! 0%nat = Some turret
  /\ (constructs (world (update 16 builder))
      = [turret; Construct.damage wall 1]
      /\ shouldExist (bullet (world (update 16 builder))) = false)
  /\ (constructs (world (update 16 (stray 0))) = []
      /\ bullet (world (update 16 (stray 0))) = moved 16 (bullet (stray 0)))
  /\ constructs (world (update 16 builder)) !! 1%nat
     = Some (Construct.damage wall 1).
Proof.
  assert (forall k c', constructs builder !! k = Some c' -> (k < 1)%nat ->
            hits_construct (moved 16 (bullet builder)) c' = false) as Hfirst.
  { intros [|k] c' Hk Hlt; [|lia]. injection Hk as <-. reflexivity. }
  split; [|split; [|split]].
  - exact (proj1 (construct_hit_rule 16 builder) 0%nat turret
                 eq_refl eq_refl ltac:(discriminate)).
  - exact (proj1 (proj2 (proj2 (construct_hit_rule 16 builder)
                               eq_refl eq_refl)) 1%nat wall eq_refl).
  - exact (proj1 (proj2 (proj2 (proj2 (construct_hit_rule 16 (stray 0))
                                      eq_refl eq_refl))) eq_refl).
  - exact (proj2 (proj2 (proj2 (proj2 (construct_hit_rule 16 builder)
                                      eq_refl eq_refl))) 1%nat wall
                 eq_refl eq_refl eq_refl Hfirst).
Defined.

Lemma kill_credit_runs :
  (completion (update 16 (duel 1)) = JS.Return
   /\ (0 < length (kill_counts (clients (duel 1))))%nat
   /\ kill_counts (clients (world (update 16 (duel 1)))) = [1; 0])
  /\ (completion (update 16 (duel 2)) = JS.Return
      /\ kill_counts (clients (world (update 16 (duel 2)))) = [0; 0]).
Proof.
  split.
  - exact (proj1 (kill_credit 16 (duel 1) 1%nat (target 1) eq_refl eq_refl)
                 eq_refl 0%nat eq_refl).
  - exact (proj2 (kill_credit 16 (duel 2) 1%nat (target 2) eq_refl eq_refl)
                 eq_refl).
Defined.

Lemma no_self_hit_runs :
  (exists p',
      clients (world (update 16 point_blank)) !! 0%nat = Some ("A"%string, p')
      /\ Player.health p' = Player.health shooter
      /\ Player.id p' = Player.id shooter)
  /\ update (C := self_colliding) 16 point_blank
     = update (C := collaborators) 16 point_blank.
Proof.
  split.
  - exact (proj1 (no_self_hit 16 point_blank) 0%nat "A"%string shooter
                 eq_refl eq_refl).
  - apply (proj2 (no_self_hit (C := collaborators) 16 point_blank)
                 self_colliding); [reflexivity | reflexivity |].
    intros p b Hne. cbn.
    destruct (String.eqb_spec (Player.id p) (source b)); [done|reflexivity].
Defined.

End Runs.

(** ** How an update ends, and what it cannot change *)

Section Outcome.
Context {num : Type} {N : JS.Number num} {C : Collaborators num}.
Implicit Types (b : Bullet.t num) (w : World num) (now : num).

Lemma write_shape r (f : Player.t num -> Player.t num)
    (h : Hashmap.t (Player.t num)) :
  (forall p, Player.id (f p) = Player.id p /\ Player.x (f p) = Player.x p
             /\ Player.y (f p) = Player.y p) ->
  player_shape <$> Hashmap.write r f h = player_shape <$> h.
Proof.
  intros Hf. unfold Hashmap.write.
  rewrite (list_fmap_alter _ _ (fun v => v)).
  - by apply list_alter_id.
  - apply Forall_forall. intros [k p] _. unfold player_shape. cbn.
    destruct (Hf p) as (-> & -> & ->). done.
Qed.

Lemma hit_player_shape b cl i p :
  player_shape <$> (hit_player b cl i p).2 = player_shape <$> cl.
Proof.
  unfold hit_player. destruct (Player.isDead _).
  - destruct (Hashmap.get _ _); cbn [snd];
      rewrite !write_shape; done.
  - cbn [snd]. by rewrite write_shape.
Qed.

(** X1.  An update throws exactly when it is not expired, the first player
    it hits is dead after the damage, and the registry holds nobody under
    the source of the bullet.  So an update whose bullet has its source in
    the registry always returns. *)
Theorem update_throws_iff now w :
  (completion (update now w) = JS.Throw JS.TypeError <->
   expired (moved now (bullet w)) = false
   /\ exists i p,
       list_find (fun p => hits_player (moved now (bullet w)) p = true)
                 (Hashmap.values (clients w)) = Some (i, p)
       /\ Player.isDead (Player.damage p (damage (bullet w))) = true
       /\ Hashmap.get (source (bullet w)) (clients w) = None)
  /\ (is_Some (Hashmap.get (source (bullet w)) (clients w)) ->
      completion (update now w) = JS.Return).
Proof.
  assert (forall i p,
    list_find (fun p => hits_player (moved now (bullet w)) p = true)
              (Hashmap.values (clients w)) = Some (i, p) ->
    (hit_player (moved now (bullet w)) (clients w) i p).1.1
    = if Player.isDead (Player.damage p (damage (bullet w)))
      then match Hashmap.get (source (bullet w)) (clients w) with
           | Some _ => JS.Return
           | None => JS.Throw JS.TypeError
           end
      else JS.Return) as Hhit.
  { intros i p _. unfold hit_player.
    cbn [moved travel Entity_update set_distanceTraveled damage source].
    destruct (Player.isDead _); [|done].
    rewrite get_write. by destruct (Hashmap.get _ _). }
  destruct (expired (moved now (bullet w))) eqn:E.
  { rewrite update_expired by done. split; [|done].
    split; [done|]. by intros [? _]. }
  destruct (list_find (fun p => hits_player (moved now (bullet w)) p = true)
              (Hashmap.values (clients w))) as [[i p]|] eqn:F.
  - rewrite (update_player _ _ i p) by done.
    specialize (Hhit i p eq_refl).
    destruct (hit_player _ _ i p) as [[c b'] cl']. cbn in Hhit.
    unfold completion. cbn [fst]. subst c.
    destruct (Player.isDead (Player.damage p (damage (bullet w)))) eqn:D.
    + destruct (Hashmap.get _ _) as [j|] eqn:G.
      * split; [|done]. split; [done|].
        intros (_ & i' & p' & _ & _ & ?). done.
      * split; [|by intros [? ?]]. split; [|done].
        intros _. split; [done|]. by exists i, p.
    + split; [|done]. split; [done|].
      intros (_ & i' & p' & Heq & ? & _). simplify_eq. congruence.
  - assert (completion (update now w) = JS.Return) as ->.
    { destruct (list_find (fun c => hits_construct (moved now (bullet w)) c = true)
                  (constructs w)) as [[j c]|] eqn:G.
      - by rewrite (update_construct _ _ j c).
      - by rewrite update_miss. }
    split; [|done]. split; [done|].
    intros (_ & i & p & ? & _). done.
Qed.

(** X2.  A live bullet is still alive after an update exactly when the
    bullet is not expired and either hits nothing, player or construct, or
    the update throws. *)
Theorem survives_iff now w :
  shouldExist (bullet w) = true ->
  (shouldExist (bullet (world (update now w))) = true <->
   expired (moved now (bullet w)) = false
   /\ (completion (update now w) = JS.Throw JS.TypeError
       \/ list_find (fun p => hits_player (moved now (bullet w)) p = true)
                    (Hashmap.values (clients w)) = None
          /\ list_find (fun c => hits_construct (moved now (bullet w)) c = true)
                       (constructs w) = None)).
Proof.
  intros Hlive.
  destruct (expired (moved now (bullet w))) eqn:E.
  { rewrite update_expired by done. split; [done|]. by intros [? _]. }
  destruct (list_find (fun p => hits_player (moved now (bullet w)) p = true)
              (Hashmap.values (clients w))) as [[i p]|] eqn:F.
  - rewrite (update_player _ _ i p) by done. unfold hit_player.
    destruct (Player.isDead _).
    + destruct (Hashmap.get _ _).
      * split; [done|]. intros [_ [? | [? _]]]; done.
      * split; [|done]. intros _. split; [done|]. by left.
    + split; [done|]. intros [_ [? | [? _]]]; done.
  - destruct (list_find (fun c => hits_construct (moved now (bullet w)) c = true)
                (constructs w)) as [[j c]|] eqn:G.
    + rewrite (update_construct _ _ j c) by done.
      split; [done|]. intros [_ [? | [_ ?]]]; done.
    + rewrite update_miss by done. split; [|done].
      intros _. split; [done|]. by right.
Qed.

(** X3.  An update adds, removes and reorders nothing: the registry comes
    out with the same keys in the same order, every player with the identity
    and the position it had, and the constructs come out in the same order,
    each with its owner, type and position.  Only health and kill counters
    can differ. *)
Theorem update_keeps_shape now w :
  player_shape <$> clients (world (update now w)) = player_shape <$> clients w
  /\ construct_shape <$> constructs (world (update now w))
     = construct_shape <$> constructs w.
Proof.
  destruct (expired (moved now (bullet w))) eqn:E.
  { by rewrite update_expired. }
  destruct (list_find (fun p => hits_player (moved now (bullet w)) p = true)
              (Hashmap.values (clients w))) as [[i p]|] eqn:F.
  { rewrite (update_player _ _ i p) by done.
    pose proof (hit_player_shape (moved now (bullet w)) (clients w) i p) as H.
    by destruct (hit_player _ _ i p) as [[c b'] cl']. }
  destruct (list_find (fun c => hits_construct (moved now (bullet w)) c = true)
              (constructs w)) as [[j c]|] eqn:G.
  - rewrite (update_construct _ _ j c) by done. split; [done|].
    unfold world; cbn [snd constructs].
    rewrite (list_fmap_alter _ _ (fun v => v)).
    + by apply list_alter_id.
    + by apply Forall_forall.
  - by rewrite update_miss.
Qed.

End Outcome.

(** ** What the update does not look at *)

Section Blind.
Context {num : Type} {N : JS.Number num} {C : Collaborators num}.
Implicit Types (b : Bullet.t num) (w : World num) (now : num).

Lemma players_loop_flag b e cl players i :
  (forall p b e, Player_isCollidedWith p (set_shouldExist e b)
                 = Player_isCollidedWith p b) ->
  (fun r => (r.1.1, r.2)) <$> players_loop (set_shouldExist e b) cl players i
  = (fun r => (r.1.1, r.2)) <$> players_loop b cl players i.
Proof.
  intros Hp. revert i. induction players as [|p players IH]; intros i; [done|].
  cbn [players_loop]. unfold hits_player. rewrite Hp. cbn [source set_shouldExist].
  destruct (_ && _); [|apply IH].
  unfold hit_player. cbn [damage source set_shouldExist fmap option_fmap option_map].
  destruct (Player.isDead _); [|done].
  by destruct (Hashmap.get _ _).
Qed.

Lemma constructs_loop_flag b e cs rest i :
  (forall c b e, Construct_isCollidedWith c (set_shouldExist e b)
                 = Construct_isCollidedWith c b) ->
  snd <$> constructs_loop (set_shouldExist e b) cs rest i
  = snd <$> constructs_loop b cs rest i.
Proof.
  intros Hc. revert i. induction rest as [|c rest IH]; intros i; [done|].
  cbn [constructs_loop]. unfold hits_construct. rewrite Hc.
  cbn [source set_shouldExist].
  destruct (_ && _); [done|apply IH].
Qed.

(** X4.  The update never reads [shouldExist].  With hit tests that do not
    read it either, a bullet that is already flagged and is updated once
    more collides like a live one: the update of the flagged bullet ends the
    same way and leaves the same registry and the same constructs as the
    update of the unflagged one. *)
Theorem update_ignores_flag now w e :
  (forall p b e, Player_isCollidedWith p (set_shouldExist e b)
                 = Player_isCollidedWith p b) ->
  (forall c b e, Construct_isCollidedWith c (set_shouldExist e b)
                 = Construct_isCollidedWith c b) ->
  completion (update now (mkWorld (set_shouldExist e (bullet w))
                                  (clients w) (constructs w)))
  = completion (update now w)
  /\ clients (world (update now (mkWorld (set_shouldExist e (bullet w))
                                         (clients w) (constructs w))))
     = clients (world (update now w))
  /\ constructs (world (update now (mkWorld (set_shouldExist e (bullet w))
                                            (clients w) (constructs w))))
     = constructs (world (update now w)).
Proof.
  intros Hp Hc. unfold update. cbn [bullet clients constructs].
  change (moved now (set_shouldExist e (bullet w)))
    with (set_shouldExist e (moved now (bullet w))).
  change (expired (set_shouldExist e (moved now (bullet w))))
    with (expired (moved now (bullet w))).
  destruct (expired _); [done|].
  pose proof (players_loop_flag (moved now (bullet w)) e (clients w)
                (Hashmap.values (clients w)) 0 Hp) as HP.
  pose proof (constructs_loop_flag (moved now (bullet w)) e (constructs w)
                (constructs w) 0 Hc) as HC.
  destruct (players_loop (set_shouldExist e _) _ _ _) as [[[c1 b1] cl1]|];
    destruct (players_loop (moved now (bullet w)) _ _ _) as [[[c2 b2] cl2]|];
    cbn in HP; try done.
  { by simplify_eq. }
  destruct (constructs_loop (set_shouldExist e _) _ _ _) as [[b1 cs1]|];
    destruct (constructs_loop (moved now (bullet w)) _ _ _) as [[b2 cs2]|];
    cbn in HC; try done.
  by simplify_eq.
Qed.

(** X5.  An update damages nothing that its hit test rejects: a player of
    the registry that is not collided with the moved bullet keeps its slot
    and its health, and a construct that is not collided is left as it is. *)
Theorem miss_is_untouched now w :
  (forall i key p,
      clients w !! i = Some (key, p) ->
      Player_isCollidedWith p (moved now (bullet w)) = false ->
      exists p',
        clients (world (update now w)) !! i = Some (key, p')
        /\ Player.health p' = Player.health p)
  /\ (forall j c,
      constructs w !! j = Some c ->
      Construct_isCollidedWith c (moved now (bullet w)) = false ->
      constructs (world (update now w)) !! j = Some c).
Proof.
  destruct (expired (moved now (bullet w))) eqn:E.
  { rewrite update_expired by done. split; [|done].
    intros i key p Hi _. by exists p. }
  destruct (list_find (fun p => hits_player (moved now (bullet w)) p = true)
              (Hashmap.values (clients w))) as [[k q]|] eqn:F.
  - rewrite (update_player _ _ k q) by done. split.
    + intros i key p Hi Hmiss.
      apply list_find_Some in F as (Hk & Hq & _).
      assert (k <> i) as Hki.
      { intros ->. unfold Hashmap.values in Hk.
        rewrite list_lookup_fmap, Hi in Hk. injection Hk as <-.
        unfold hits_player in Hq. rewrite Hmiss, andb_false_r in Hq. done. }
      pose proof (lookup_write k i (fun q => Player.damage q
                    (damage (moved now (bullet w)))) _ _ _ Hi) as Hd.
      rewrite decide_False in Hd by done.
      unfold hit_player. destruct (Player.isDead _).
      * destruct (Hashmap.get _ _) as [j|]; unfold world; cbn [snd clients].
        -- rewrite (lookup_write j i _ _ _ _ Hd).
           destruct (decide (j = i)); eauto.
        -- eauto.
      * unfold world; cbn [snd clients]. eauto.
    + by destruct (hit_player _ _ k q) as [[? ?] ?].
  - destruct (list_find (fun c => hits_construct (moved now (bullet w)) c = true)
                (constructs w)) as [[j' c']|] eqn:G.
    + rewrite (update_construct _ _ j' c') by done. split.
      * intros i key p Hi _. by exists p.
      * intros j c Hj Hmiss.
        apply list_find_Some in G as (Hj' & Hc' & _).
        unfold world; cbn [snd constructs].
        rewrite list_lookup_alter_ne; [done|].
        intros ->. simplify_eq. unfold hits_construct in Hc'.
        rewrite Hmiss, andb_false_r in Hc'. done.
    + rewrite update_miss by done. split; [|done].
      intros i key p Hi _. by exists p.
Qed.

(** X6.  In a registry that holds every player under the player's own
    identity, the player that an update damages is not the one it credits:
    the kill counter of the damaged player is what it was. *)
Theorem no_credit_for_own_death now w i p :
  (forall r key q, clients w !! r = Some (key, q) -> Player.id q = key) ->
  expired (moved now (bullet w)) = false ->
  list_find (fun p => hits_player (moved now (bullet w)) p = true)
            (Hashmap.values (clients w)) = Some (i, p) ->
  kill_counts (clients (world (update now w))) !! i
  = kill_counts (clients w) !! i.
Proof.
  intros Hkeyed E F. rewrite (update_player _ _ i p) by done.
  apply list_find_Some in F as (Hi & Hp & _).
  unfold hit_player. rewrite get_write.
  destruct (Player.isDead _); [|unfold world; cbn [snd clients];
                                by rewrite kill_counts_damage].
  destruct (Hashmap.get _ _) as [j|] eqn:G; unfold world; cbn [snd clients].
  - rewrite kill_counts_incr_kills, kill_counts_damage.
    apply list_lookup_alter_ne. intros ->.
    unfold Hashmap.get in G.
    destruct (list_find _ (clients w)) as [[j [key q]]|] eqn:G'; [|done].
    cbn in G. injection G as ->.
    apply list_find_Some in G' as (Hj & Hkey & _). cbn in Hkey.
    unfold Hashmap.values in Hi. rewrite list_lookup_fmap, Hj in Hi.
    injection Hi as ->.
    apply Hkeyed in Hj. unfold hits_player in Hp.
    cbn [moved travel Entity_update set_distanceTraveled source] in *.
    rewrite Hj, Hkey, String.eqb_refl in Hp. done.
  - by rewrite kill_counts_damage.
Qed.

End Blind.

(** ** Runs of updates *)

Section Sequences.
Context {num : Type} {N : JS.Number num} {C : Collaborators num}.
Implicit Types (w : World num) (nows : list num).

(** X9.  Through any run of updates of a bullet, the velocity, the
    orientation, the hitbox size, the source and the damage stay what they
    were at the start, and a bullet that is flagged at the start is flagged
    at the end: no number of updates revives it. *)
Theorem updates_keep_bullet nows w :
  vx (bullet (updates nows w)) = vx (bullet w)
  /\ vy (bullet (updates nows w)) = vy (bullet w)
  /\ orientation (bullet (updates nows w)) = orientation (bullet w)
  /\ hitboxSize (bullet (updates nows w)) = hitboxSize (bullet w)
  /\ source (bullet (updates nows w)) = source (bullet w)
  /\ damage (bullet (updates nows w)) = damage (bullet w)
  /\ (shouldExist (bullet w) = false ->
      shouldExist (bullet (updates nows w)) = false).
Proof.
  revert w. induction nows as [|now nows IH]; intros w; [done|].
  change (updates (now :: nows) w) with (updates nows (world (update now w))).
  destruct (IH (world (update now w))) as (-> & -> & -> & -> & -> & -> & Hs).
  destruct (update_bullet now w) as [Hb | Hb]; rewrite Hb in *;
    repeat split; try done; intros Hf; by apply Hs.
Qed.

End Sequences.

(** ** The factory, in binary64 *)

Section Factory.
#[local] Open Scope float_scope.


End Factory.

(** ** Signs, in binary64 *)

Section Sign.
Variables prec emax : Z.

Lemma shr_1_nonneg mrs : (0 <= shr_m mrs)%Z -> (0 <= shr_m (shr_1 mrs))%Z.
Proof.
  destruct mrs as [m r s]. cbn.
  destruct m as [|[p|p|]|[p|p|]]; cbn; lia.
Qed.

Lemma iter_shr_1_nonneg p mrs :
  (0 <= shr_m mrs)%Z -> (0 <= shr_m (SpecFloat.iter_pos shr_1 p mrs))%Z.
Proof.
  revert mrs. induction p as [p IH|p IH|]; intros mrs H; cbn.
  - apply IH, IH. by apply shr_1_nonneg.
  - by apply IH, IH.
  - by apply shr_1_nonneg.
Qed.

Lemma shr_fexp_nonneg m e l :
  (0 <= m)%Z -> (0 <= shr_m (shr_fexp prec emax m e l).1)%Z.
Proof.
  intros H. unfold shr_fexp, shr.
  assert (0 <= shr_m (shr_record_of_loc m l))%Z as H'.
  { by destruct l as [|[]]. }
  destruct (_ - e)%Z; cbn [fst]; [done| |done].
  by apply iter_shr_1_nonneg.
Qed.

Lemma round_nearest_even_nonneg m l :
  (0 <= m)%Z -> (0 <= round_nearest_even m l)%Z.
Proof.
  intros H. unfold round_nearest_even.
  destruct l as [|[]]; [done| |done|lia].
  destruct (Z.even m); lia.
Qed.

(** Rounding keeps the sign it is given and never makes a NaN. *)
Lemma binary_round_aux_sign sx m e l :
  (0 <= m)%Z ->
  match binary_round_aux prec emax sx m e l with
  | S754_zero s | S754_infinity s | S754_finite s _ _ => s = sx
  | S754_nan => False
  end.
Proof.
  intros H. unfold binary_round_aux.
  pose proof (shr_fexp_nonneg m e l H) as H1.
  destruct (shr_fexp prec emax m e l) as [mrs' e'].
  pose proof (shr_fexp_nonneg
                (round_nearest_even (shr_m mrs') (loc_of_shr_record mrs'))
                e' loc_Exact
                (round_nearest_even_nonneg _ _ H1)) as H2.
  destruct (shr_fexp prec emax _ e' loc_Exact) as [mrs'' e''].
  cbn [fst] in H2. destruct (shr_m mrs''); [done| |lia].
  by destruct (_ <=? _)%Z.
Qed.

Lemma binary_normalize_neg_sign p e :
  match binary_normalize prec emax (Zneg p) e false with
  | S754_zero s | S754_infinity s | S754_finite s _ _ => s = true
  | S754_nan => False
  end.
Proof.
  cbn [binary_normalize]. unfold binary_round.
  destruct (shl_align _ _ _) as [mz ez].
  by apply binary_round_aux_sign.
Qed.

End Sign.

(** In binary64, with its rounding, its signed zeros and its infinities, a
    number that is at most 0 is still at most 0 after a number that is at
    least 0 has been taken from it. *)
Lemma sub_stays_nonpositive (h d : float) :
  PrimFloat.leb h 0 = true -> PrimFloat.leb 0 d = true ->
  PrimFloat.leb (h - d) 0 = true.
Proof.
  rewrite !FloatAxioms.leb_spec, FloatAxioms.sub_spec. unfold SF64sub.
  change (Prim2SF 0) with (S754_zero false).
  destruct (Prim2SF h) as [sh|sh| |sh mh eh];
    destruct (Prim2SF d) as [sd|sd| |sd md ed];
    try destruct sh; try destruct sd; cbn; try done.
  intros _ _.
  pose proof (binary_normalize_neg_sign FloatOps.prec FloatOps.emax
     ((shl_align mh eh (Z.min eh ed)).1 + (shl_align md ed (Z.min eh ed)).1)%positive
     (Z.min eh ed)) as H.
  change (- Z.pos (shl_align mh eh (Z.min eh ed)).1
          - Z.pos (shl_align md ed (Z.min eh ed)).1)%Z
    with (Z.neg ((shl_align mh eh (Z.min eh ed)).1
                 + (shl_align md ed (Z.min eh ed)).1)).
  destruct (binary_normalize _ _ _ _ _) as [s|s| |s m e]; by subst.
Qed.

(** ** A target that is already dead *)

Section Corpse.
Context {C : Collaborators float}.
Implicit Types (w : World float) (now : float).

(** X10.  The update does not ask whether its target is alive.  In
    binary64, a bullet whose damage is at least 0 and that hits a player who
    is dead already takes the damage off the health once more and, the
    target being dead after the damage as well, credits one more kill to
    the player held under the source of the bullet. *)
Theorem dead_target_counts_again now w i p shooter :
  expired (moved now (bullet w)) = false ->
  list_find (fun p => hits_player (moved now (bullet w)) p = true)
            (Hashmap.values (clients w)) = Some (i, p) ->
  Player.isDead p = true ->
  PrimFloat.leb 0 (damage (bullet w)) = true ->
  Hashmap.get (source (bullet w)) (clients w) = Some shooter ->
  completion (update now w) = JS.Return
  /\ healths (clients (world (update now w)))
     = alter (fun v => (v - damage (bullet w))%float) i (healths (clients w))
  /\ kill_counts (clients (world (update now w)))
     = alter (fun k => (k + 1)%float) shooter (kill_counts (clients w)).
Proof.
  intros E F Hdead Hd G.
  assert (Player.isDead (Player.damage p (damage (bullet w))) = true) as D.
  { unfold Player.isDead in *. cbn [Player.damage Player.health].
    by apply sub_stays_nonpositive. }
  rewrite (update_player _ _ i p) by done. unfold hit_player.
  cbn [moved travel Entity_update set_distanceTraveled damage source].
  rewrite D, get_write, G. unfold completion, world. cbn [fst snd clients].
  split; [done|]. split.
  - by rewrite healths_incr_kills, healths_damage.
  - by rewrite kill_counts_incr_kills, kill_counts_damage.
Qed.

End Corpse.

(** ** More runs in the arena *)

Section MoreRuns.
Import Arena.
#[local] Open Scope float_scope.

Lemma update_throws_iff_runs :
  completion (update 16 orphaned) = JS.Throw JS.TypeError
  /\ completion (update 16 (duel 1)) = JS.Return.
Proof.
  split.
  - exact (proj2 (proj1 (update_throws_iff 16 orphaned))
                 (conj eq_refl
                    (ex_intro _ 0%nat
                       (ex_intro _ (target 1)
                          (conj eq_refl (conj eq_refl eq_refl)))))).
  - exact (proj2 (update_throws_iff 16 (duel 1)) (ex_intro _ 0%nat eq_refl)).
Defined.

Lemma survives_iff_runs :
  shouldExist (bullet (world (update 16 (stray 0)))) = true.
Proof.
  exact (proj2 (survives_iff 16 (stray 0) eq_refl)
               (conj eq_refl (or_intror (conj eq_refl eq_refl)))).
Defined.

Lemma update_ignores_flag_runs :
  healths (clients spent_on_target) = [10; 5]
  /\ healths (clients (world (update 16 spent_on_target))) = [10; 4]
  /\ completion (update 16 (mkWorld (set_shouldExist true (bullet spent_on_target))
                                    (clients spent_on_target)
                                    (constructs spent_on_target)))
     = completion (update 16 spent_on_target)
  /\ clients (world (update 16 (mkWorld
                                  (set_shouldExist true (bullet spent_on_target))
                                  (clients spent_on_target)
                                  (constructs spent_on_target))))
     = clients (world (update 16 spent_on_target))
  /\ constructs (world (update 16 (mkWorld
                                     (set_shouldExist true (bullet spent_on_target))
                                     (clients spent_on_target)
                                     (constructs spent_on_target))))
     = constructs (world (update 16 spent_on_target)).
Proof.
  split; [reflexivity|]. split; [reflexivity|].
  exact (update_ignores_flag (C := collaborators) 16 spent_on_target true
           (fun _ _ _ => eq_refl) (fun _ _ _ => eq_refl)).
Defined.

Lemma miss_is_untouched_runs :
  (exists p',
      clients (world (update 16 distant)) !! 0%nat = Some ("A"%string, p')
      /\ Player.health p' = Player.health shooter)
  /\ constructs (world (update 16 distant)) !! 0%nat = Some wall.
Proof.
  split.
  - exact (proj1 (miss_is_untouched 16 distant) 0%nat "A"%string shooter
                 eq_refl eq_refl).
  - exact (proj2 (miss_is_untouched 16 distant) 0%nat wall eq_refl eq_refl).
Defined.

Lemma no_credit_for_own_death_runs :
  kill_counts (clients (world (update 16 (duel 1)))) !! 1%nat
  = kill_counts (clients (duel 1)) !! 1%nat.
Proof.
  assert (forall r key q, clients (duel 1) !! r = Some (key, q) ->
                          Player.id q = key) as Hkeyed.
  { intros [|[|r]] key q Hr; cbn in Hr; [| |done];
      injection Hr as <- <-; reflexivity. }
  exact (no_credit_for_own_death 16 (duel 1) 1%nat (target 1) Hkeyed
           eq_refl eq_refl).
Defined.

Lemma updates_keep_bullet_runs :
  shouldExist (bullet (updates [16; 32; 48] spent)) = false.
Proof.
  exact (proj2 (proj2 (proj2 (proj2 (proj2 (proj2
           (updates_keep_bullet (C := collaborators) [16; 32; 48] spent))))))
           eq_refl).
Defined.


(** The four directions of the compass, with the engine of this file:
    direction 0 is up the canvas (towards smaller [y]) and the direction
    turns clockwise; the component that would be 0 over the real numbers is
    a rounding residue of the size of [1e-16]. *)
Lemma create_compass :
  (vx (create (M := engine_Math) 0 0 0 "A") = 0x1.e00da8a0902d8p-55
   /\ vy (create (M := engine_Math) 0 0 0 "A") = -0x1.b333333333333p-1)
  /\ (vx (create (M := engine_Math) 0 0 0x1.921fb54442d18p+0 "A")
      = 0x1.b333333333333p-1
      /\ vy (create (M := engine_Math) 0 0 0x1.921fb54442d18p+0 "A") = 0)
  /\ (vx (create (M := engine_Math) 0 0 0x1.921fb54442d18p+1 "A")
      = 0x1.e00da8a0902d8p-55
      /\ vy (create (M := engine_Math) 0 0 0x1.921fb54442d18p+1 "A")
         = 0x1.b333333333333p-1)
  /\ (vx (create (M := engine_Math) 0 0 0x1.2d97c7f3321d2p+2 "A")
      = -0x1.b333333333333p-1
      /\ vy (create (M := engine_Math) 0 0 0x1.2d97c7f3321d2p+2 "A")
         = 0x1.e00da8a0902d8p-54).
Proof. vm_compute. repeat split. Qed.


Lemma dead_target_counts_again_runs :
  completion (update 16 (duel 0)) = JS.Return
  /\ healths (clients (world (update 16 (duel 0))))
     = alter (fun v => v - 1) 1%nat [10; 0]
  /\ kill_counts (clients (world (update 16 (duel 0))))
     = alter (fun k => k + 1) 0%nat [0; 0].
Proof.
  exact (dead_target_counts_again (C := collaborators) 16 (duel 0) 1%nat
           (target 0) 0%nat eq_refl eq_refl eq_refl eq_refl eq_refl).
Defined.

End MoreRuns.
